(** * The [greetings] package of notebook 6.4 (Packaging)

    A shallow embedding of the [greet] function that the notebook
    documents, of the unit test [test_greeter] and of the command-line
    entry point [greetings.command:process], with the properties the
    specification states about them. *)

From Stdlib Require Import String Ascii List Bool Arith ZArith Lia.
From Stdlib Require Import DecimalString.
Import ListNotations.
Local Open Scope string_scope.

(** ** Colour tokens

    [greet] reads three attributes of colorama's [Fore] object.  colorama
    is a third-party dependency of the package ([colorama ~= 0.4.4] in
    [pyproject.toml]); the function is embedded over any value of these
    attributes. *)
Record AnsiFore : Type := {
  RED : string;
  GREEN : string;
  BLUE : string
}.

(** [str(code)] for a non-negative integer. *)
Definition str (code : nat) : string :=
  NilEmpty.string_of_uint (Nat.to_uint code).

Definition ESC : string := String "027"%char "".
Definition CSI : string := ESC ++ "[".

Definition code_to_chars (code : nat) : string :=
  (CSI ++ str code) ++ "m".

(** Modelled from the spec: the "fixed color-formatting tokens".  colorama's
    [ansi.py] is not part of the sources; these are the escape sequences
    [CSI + str(code) + "m"] with the standard SGR foreground codes, the
    ones the recorded outputs and the test's comment show
    ([\x1b[31m], [\x1b[32m]). *)
Definition colorama_Fore : AnsiFore := {|
  RED := code_to_chars 31;
  GREEN := code_to_chars 32;
  BLUE := code_to_chars 34
|}.

(** ** The greeter *)

(** Truth value of a [str]: non-empty. *)
Definition str_bool (s : string) : bool :=
  match s with
  | EmptyString => false
  | String _ _ => true
  end.

Section Greeter.

Variable Fore : AnsiFore.

(** [def greet(personal, family, title="", polite=False)].  Python's [+]
    associates to the left; the parentheses follow it. *)
Definition greet (personal family title : string) (polite : bool) : string :=
  let greeting := if polite then "How do you do, " else "Hey, " in
  let greeting := GREEN Fore ++ greeting in
  let greeting :=
    if str_bool title
    then greeting ++ ((BLUE Fore ++ title) ++ " ")
    else greeting in
  let greeting :=
    greeting ++ ((((RED Fore ++ personal) ++ " ") ++ family) ++ ".") in
  greeting.

(** Keyword arguments of a call: [title] and [polite] may be omitted,
    and then take the defaults of the signature. *)
Record kwargs : Type := {
  kw_personal : string;
  kw_family : string;
  kw_title : option string;
  kw_polite : option bool
}.

Definition greet_kw (inp : kwargs) : string :=
  greet (kw_personal inp) (kw_family inp)
        (match kw_title inp with Some t => t | None => "" end)
        (match kw_polite inp with Some b => b | None => false end).

End Greeter.

(** The segments of a greeting. *)
Definition salutation (polite : bool) : string :=
  if polite then "How do you do, " else "Hey, ".

Definition title_token (Fore : AnsiFore) (title : string) : string :=
  if str_bool title then BLUE Fore ++ title ++ " " else "".

(** Last character of a string, and occurrence of one string in another. *)
Fixpoint last_char (s : string) : option ascii :=
  match s with
  | EmptyString => None
  | String c EmptyString => Some c
  | String _ s' => last_char s'
  end.


(** A greeting laid out as markup, salutation, title token when a title is
    given, and then the names directly, with [tail] to close. *)
Definition flat_shape (Fore : AnsiFore) (tail : string) : Prop :=
  exists (markup : string) (phrase : bool -> string) (token : string -> string),
  forall (personal family title : string) (polite : bool),
    greet Fore personal family title polite =
      markup ++ phrase polite
      ++ (if str_bool title then token title else "")
      ++ personal ++ " " ++ family ++ tail.

(** ** The unit test [tests/test_greeter.py] *)

Definition inputs : list kwargs := [
  {| kw_personal := "James"; kw_family := "Hetherington";
     kw_title := None; kw_polite := None |};
  {| kw_personal := "James"; kw_family := "Hetherington";
     kw_title := None; kw_polite := Some true |};
  {| kw_personal := "James"; kw_family := "Hetherington";
     kw_title := Some "Dr"; kw_polite := None |}
].

(** The expected strings; [CSI] is the escape character and the opening
    bracket that the literals of the test write as an escape and a bracket. *)
Definition outputs : list string := [
  CSI ++ "40m" ++ CSI ++ "33mHey, " ++ CSI ++ "47m" ++ CSI ++ "1m" ++ CSI
    ++ "31mJames Hetherington";
  CSI ++ "40m" ++ CSI ++ "33mHow do you do, " ++ CSI ++ "47m" ++ CSI ++ "1m"
    ++ CSI ++ "31mJames Hetherington";
  CSI ++ "40m" ++ CSI ++ "33mHey, " ++ CSI ++ "44m" ++ CSI ++ "37mDr " ++ CSI
    ++ "47m" ++ CSI ++ "1m" ++ CSI ++ "31mJames Hetherington"
].

(** The loop over [zip(inputs, outputs)] asserting that [greet], called
    with the keyword dictionary [inp], equals [out]: [true] when every
    assertion holds. *)
Definition test_greeter (Fore : AnsiFore) : bool :=
  forallb (fun io => greet_kw Fore (fst io) =? snd io) (combine inputs outputs).

(** ** Statement-level model

    The same function over untyped Python values, in a monad that threads
    the process's output streams and propagates exceptions: it shows where
    [greet] could raise and what it does to the world around it. *)
Module Py.

Inductive value : Type :=
| VStr (s : string)
| VBool (b : bool)
| VInt (n : Z)
| VNone.

Inductive exn : Type :=
| TypeError
| SystemExit (status : nat).

Record World : Type := {
  stdout : list string;   (* the lines written so far *)
  stderr : list string
}.

Inductive result (A : Type) : Type :=
| Return (a : A)
| Raise (e : exn).
Arguments Return {A} a.
Arguments Raise {A} e.

Definition M (A : Type) : Type := World -> result A * World.

Definition ret {A} (a : A) : M A := fun w => (Return a, w).

Definition raise {A} (e : exn) : M A := fun w => (Raise e, w).

Definition bind {A B} (m : M A) (k : A -> M B) : M B :=
  fun w =>
    match m w with
    | (Return a, w') => k a w'
    | (Raise e, w') => (Raise e, w')
    end.

Notation "x <- m ;; k" := (bind m (fun x => k))
  (at level 61, m at next level, right associativity).
Notation "m ;;; k" := (bind m (fun _ => k))
  (at level 61, right associativity).

(** [bool(v)] *)
Definition truth (v : value) : bool :=
  match v with
  | VStr s => str_bool s
  | VBool b => b
  | VInt n => negb (n =? 0)%Z
  | VNone => false
  end.

Definition int_of_bool (b : bool) : Z := if b then 1%Z else 0%Z.

(** [a + b]: concatenation of two [str], addition of numbers ([bool] is
    a subclass of [int]), [TypeError] otherwise. *)
Definition add (a b : value) : M value :=
  match a, b with
  | VStr x, VStr y => ret (VStr (x ++ y))
  | VInt x, VInt y => ret (VInt (x + y))
  | VInt x, VBool y => ret (VInt (x + int_of_bool y))
  | VBool x, VInt y => ret (VInt (int_of_bool x + y))
  | VBool x, VBool y => ret (VInt (int_of_bool x + int_of_bool y))
  | _, _ => raise TypeError
  end.

(** [str(v)] *)
Definition to_str (v : value) : string :=
  match v with
  | VStr s => s
  | VBool true => "True"
  | VBool false => "False"
  | VInt n => NilZero.string_of_int (Z.to_int n)
  | VNone => "None"
  end.

(** [print(v)] writes one line to standard output. *)
Definition print (v : value) : M unit :=
  fun w => (Return tt, {| stdout := stdout w ++ [to_str v];
                          stderr := stderr w |}).

Definition eprint (lines : list string) : M unit :=
  fun w => (Return tt, {| stdout := stdout w;
                          stderr := stderr w ++ lines |}).

(** Exit status of the interpreter when the program ends with [r]. *)
Definition exit_status {A} (r : result A) : nat :=
  match r with
  | Return _ => 0
  | Raise (SystemExit status) => status
  | Raise TypeError => 1
  end.

Section Greeter.

Variable Fore : AnsiFore.

Definition greet (personal family title polite : value) : M value :=
  let greeting :=
    if truth polite then VStr "How do you do, " else VStr "Hey, " in
  greeting <- add (VStr (GREEN Fore)) greeting ;;
  greeting <-
    (if truth title
     then t <- add (VStr (BLUE Fore)) title ;;
          t <- add t (VStr " ") ;;
          add greeting t
     else ret greeting) ;;
  t <- add (VStr (RED Fore)) personal ;;
  t <- add t (VStr " ") ;;
  t <- add t family ;;
  t <- add t (VStr ".") ;;
  greeting <- add greeting t ;;
  ret greeting.

End Greeter.

End Py.

(** ** The command-line entry point

    Modelled from the spec: [greetings/command.py] (the [process] function
    that [pyproject.toml] installs as the [greet] command) and the generic
    argument parser it configures are not part of the sources.  The model
    follows the spec's words ("a command-line wrapper that maps parsed
    arguments onto that function's parameters", "two positional name
    arguments and two optional flags (a title value and a politeness
    switch)", "standard argument-parsing failures ... handled entirely by
    generic command-line parsing infrastructure") and the usage and help
    text that the notebook records.  Only the option strings of the help
    text are recognised; an argument that starts with a dash and is none of
    them is reported as unrecognised. *)
Module Command.

Import Py.

Record Namespace : Type := {
  personal : string;
  family : string;
  title : option string;
  polite : bool
}.

Inductive parsed : Type :=
| Parsed (arguments : Namespace)
| Help
| Error (message : string).

Definition usage : string :=
  "usage: greet [-h] [--title TITLE] [--polite] personal family".

Definition help : list string := [
  usage;
  "";
  "Generate appropriate greetings";
  "";
  "positional arguments:";
  "  personal";
  "  family";
  "";
  "optional arguments:";
  "  -h, --help            show this help message and exit";
  "  --title TITLE, -t TITLE";
  "  --polite, -p"
].

Definition starts_with_dash (s : string) : bool :=
  match s with
  | EmptyString => false
  | String c _ => Ascii.eqb c "-"
  end.

Definition is_help (s : string) : bool := (s =? "-h") || (s =? "--help").
Definition is_title (s : string) : bool := (s =? "--title") || (s =? "-t").
Definition is_polite (s : string) : bool := (s =? "--polite") || (s =? "-p").

Record scan_state : Type := {
  seen_title : option string;
  seen_polite : bool;
  seen_positionals : list string;
  extras : list string
}.

Definition start : scan_state := {|
  seen_title := None;
  seen_polite := false;
  seen_positionals := [];
  extras := []
|}.

Definition set_title (v : string) (st : scan_state) : scan_state :=
  {| seen_title := Some v; seen_polite := seen_polite st;
     seen_positionals := seen_positionals st; extras := extras st |}.

Definition set_polite (st : scan_state) : scan_state :=
  {| seen_title := seen_title st; seen_polite := true;
     seen_positionals := seen_positionals st; extras := extras st |}.

Definition add_extra (a : string) (st : scan_state) : scan_state :=
  {| seen_title := seen_title st; seen_polite := seen_polite st;
     seen_positionals := seen_positionals st; extras := extras st ++ [a] |}.

(** The two positional slots are filled in order; what comes after them
    is left over. *)
Definition add_positional (a : string) (st : scan_state) : scan_state :=
  if (List.length (seen_positionals st) <? 2)%nat
  then {| seen_title := seen_title st; seen_polite := seen_polite st;
          seen_positionals := seen_positionals st ++ [a];
          extras := extras st |}
  else add_extra a st.

Inductive scanned : Type :=
| Scanned (st : scan_state)
| ScanHelp
| ScanError (message : string).

Fixpoint scan (args : list string) (st : scan_state) : scanned :=
  match args with
  | [] => Scanned st
  | a :: rest =>
      if is_help a then ScanHelp
      else if is_polite a then scan rest (set_polite st)
      else if is_title a then
        match rest with
        | [] => ScanError "argument --title/-t: expected one argument"
        | v :: rest' =>
            if starts_with_dash v
            then ScanError "argument --title/-t: expected one argument"
            else scan rest' (set_title v st)
        end
      else if starts_with_dash a then scan rest (add_extra a st)
      else scan rest (add_positional a st)
  end.

Definition parse_args (args : list string) : parsed :=
  match scan args start with
  | ScanHelp => Help
  | ScanError message => Error message
  | Scanned st =>
      match seen_positionals st with
      | [p; f] =>
          match extras st with
          | [] => Parsed {| personal := p; family := f;
                            title := seen_title st;
                            polite := seen_polite st |}
          | _ :: _ => Error "unrecognized arguments"
          end
      | _ => Error "the following arguments are required"
      end
  end.

Section Process.

Variable Fore : AnsiFore.

Definition process (argv : list string) : M unit :=
  match parse_args argv with
  | Parsed arguments =>
      greeting <- Py.greet Fore
                    (VStr (personal arguments))
                    (VStr (family arguments))
                    (match title arguments with
                     | Some t => VStr t
                     | None => VNone
                     end)
                    (VBool (polite arguments)) ;;
      print greeting
  | Help =>
      fold_right (fun line k => print (VStr line) ;;; k)
                 (raise (SystemExit 0)) help
  | Error message =>
      eprint [usage; "greet: error: " ++ message] ;;;
      raise (SystemExit 2)
  end.

End Process.

(** *** Invocations that follow the usage line *)

Inductive item : Type :=
| Positional (s : string)
| Title (short : bool) (v : string)
| Polite (short : bool).

Definition render_item (i : item) : list string :=
  match i with
  | Positional s => [s]
  | Title short v => [if short then "-t" else "--title"; v]
  | Polite short => [if short then "-p" else "--polite"]
  end.

Definition render (items : list item) : list string :=
  flat_map render_item items.

Definition word_ok (i : item) : bool :=
  match i with
  | Positional s => negb (starts_with_dash s)
  | Title _ v => negb (starts_with_dash v)
  | Polite _ => true
  end.

Fixpoint names (items : list item) : list string :=
  match items with
  | [] => []
  | Positional s :: rest => s :: names rest
  | _ :: rest => names rest
  end.

(** The value of the last [--title] option, if any. *)
Fixpoint title_of (items : list item) : option string :=
  match items with
  | [] => None
  | Title _ v :: rest =>
      match title_of rest with
      | Some t => Some t
      | None => Some v
      end
  | _ :: rest => title_of rest
  end.

Fixpoint polite_of (items : list item) : bool :=
  match items with
  | [] => false
  | Polite _ :: _ => true
  | _ :: rest => polite_of rest
  end.

Definition well_formed (items : list item) : bool :=
  forallb word_ok items && (List.length (names items) =? 2)%nat.

(** What the parser's scan does with one item of the command line. *)
Definition absorb (st : scan_state) (i : item) : scan_state :=
  match i with
  | Positional s => add_positional s st
  | Title _ v => set_title v st
  | Polite _ => set_polite st
  end.

(** The parameters of [greet] that an invocation stands for. *)
Definition arguments_of (items : list item) : Namespace := {|
  personal := nth 0 (names items) "";
  family := nth 1 (names items) "";
  title := title_of items;
  polite := polite_of items
|}.

Definition title_or_default (t : option string) : string :=
  match t with
  | Some t => t
  | None => ""
  end.

End Command.

(** ** Tidying up (the notebook's first cell)

    The cell deletes the files of the previous notebook from the working
    directory.  The directory is a map from path to what is found there,
    and nothing else changes it while the cell runs; [os.path.exists] and
    [os.remove] act on it.  [os.remove] deletes a file that the process
    may delete, and raises otherwise: for a file it may not delete (a
    read-only directory or file system, an immutable file), for a
    directory, and for a path that is not there. *)
Module Tidy.

Inductive node : Type :=
| File          (* a file that the process may delete *)
| Directory
| LockedFile.   (* a file that the process may not delete *)

Definition FileSystem : Type := string -> option node.

Inductive OSError : Type :=
| FileNotFoundError (path : string)
| IsADirectoryError (path : string)
| PermissionError (path : string).

(** The [filename] attribute of the exception. *)
Definition filename (e : OSError) : string :=
  match e with
  | FileNotFoundError path => path
  | IsADirectoryError path => path
  | PermissionError path => path
  end.

Definition is_not_found (e : OSError) : bool :=
  match e with
  | FileNotFoundError _ => true
  | _ => false
  end.

(** [os.path.exists(path)] *)
Definition path_exists (path : string) (fs : FileSystem) : bool :=
  match fs path with
  | Some _ => true
  | None => false
  end.

Definition unlink (path : string) (fs : FileSystem) : FileSystem :=
  fun p => if (p =? path)%string then None else fs p.

(** [os.remove(path)]: the exception raised, if any, and the directory
    afterwards. *)
Definition remove (path : string) (fs : FileSystem)
  : option OSError * FileSystem :=
  match fs path with
  | Some File => (None, unlink path fs)
  | Some LockedFile => (Some (PermissionError path), fs)
  | Some Directory => (Some (IsADirectoryError path), fs)
  | None => (Some (FileNotFoundError path), fs)
  end.

(** What [os.remove] can delete. *)
Definition removable (path : string) (fs : FileSystem) : bool :=
  match fs path with
  | Some Directory | Some LockedFile => false
  | Some File | None => true
  end.

Definition files : list string := ["greeter.py"; "command.py"].

(** [for f in files: if os.path.exists(f): os.remove(f)]; an exception
    ends the loop. *)
Fixpoint tidy (files : list string) (fs : FileSystem)
  : option OSError * FileSystem :=
  match files with
  | [] => (None, fs)
  | f :: rest =>
      if path_exists f fs
      then match remove f fs with
           | (Some e, fs') => (Some e, fs')
           | (None, fs') => tidy rest fs'
           end
      else tidy rest fs
  end.

(** Working directories to try the cell on. *)
Definition after_previous_notebook : FileSystem :=
  fun p =>
    if (p =? "greeter.py")%string then Some File
    else if (p =? "command.py")%string then Some File
    else if (p =? "Greetings")%string then Some Directory
    else None.

Definition with_directory_in_the_way : FileSystem :=
  fun p =>
    if (p =? "greeter.py")%string then Some File
    else if (p =? "command.py")%string then Some Directory
    else None.

Definition with_locked_file : FileSystem :=
  fun p =>
    if (p =? "greeter.py")%string then Some LockedFile
    else if (p =? "command.py")%string then Some File
    else None.

End Tidy.

(** ** Values that are strings *)

Definition is_str (v : Py.value) : bool :=
  match v with
  | Py.VStr _ => true
  | _ => false
  end.

(** * Properties *)

(** ** Strings *)

Lemma append_assoc (a b c : string) : (a ++ b) ++ c = a ++ (b ++ c).
Proof.
  induction a as [|x a IH]; simpl; [reflexivity | now rewrite IH].
Qed.

Lemma append_nil_r (a : string) : a ++ "" = a.
Proof.
  induction a as [|x a IH]; simpl; [reflexivity | now rewrite IH].
Qed.

Lemma last_char_append (a b : string) (c : ascii) :
  last_char b = Some c -> last_char (a ++ b) = Some c.
Proof.
  intros L. induction a as [|x a IH]; [exact L|].
  change (String x a ++ b) with (String x (a ++ b)).
  destruct (a ++ b) as [|y r] eqn:E; [discriminate IH | exact IH].
Qed.

(** ** The greeting, segment by segment *)

Lemma greet_segments (Fore : AnsiFore) (personal family title : string)
      (polite : bool) :
  greet Fore personal family title polite =
    GREEN Fore ++ salutation polite ++ title_token Fore title ++
    RED Fore ++ personal ++ " " ++ family ++ ".".
Proof.
  unfold greet, title_token, salutation.
  destruct (str_bool title); repeat rewrite append_assoc; reflexivity.
Qed.

Lemma greet_last_char (Fore : AnsiFore) (personal family title : string)
      (polite : bool) :
  last_char (greet Fore personal family title polite) = Some "."%char.
Proof.
  rewrite greet_segments.
  repeat apply last_char_append. reflexivity.
Qed.

(** C1.  The call [greet("James", "Hetherington")] does not return the
    string that the test and the recorded outputs give: it returns the
    salutation in green and the name in red, closed by a full stop,
    whatever the colour tokens are. *)
Theorem greet_james_hetherington :
  greet colorama_Fore "James" "Hetherington" "" false =
    CSI ++ "32mHey, " ++ CSI ++ "31mJames Hetherington."
  /\ forall Fore : AnsiFore,
       greet Fore "James" "Hetherington" "" false <> nth 0 outputs "".
Proof.
  split; [reflexivity|].
  intros Fore E.
  apply (f_equal last_char) in E.
  rewrite greet_last_char in E.
  discriminate E.
Qed.

(** C5.  The documented definition does not pass [test_greeter]: each of
    the three assertions fails, whatever the colour tokens are. *)
Theorem test_greeter_fails (Fore : AnsiFore) :
  test_greeter Fore = false
  /\ Forall2 (fun inp out => greet_kw Fore inp <> out) inputs outputs.
Proof.
  assert (D : forall inp out,
             last_char out = Some "n"%char -> greet_kw Fore inp <> out).
  { intros inp out L E. rewrite <- E in L. unfold greet_kw in L.
    rewrite greet_last_char in L. discriminate L. }
  split.
  - unfold test_greeter. simpl.
    rewrite (proj2 (String.eqb_neq _ _)); [reflexivity|].
    apply D. reflexivity.
  - unfold inputs, outputs.
    repeat constructor; apply D; reflexivity.
Qed.

(** C3.  With [polite=True] the greeting is the one of the plain call with
    "How do you do, " in the place of "Hey, ", right after the leading
    colour token; what precedes and what follows the salutation is the
    same in both. *)
Theorem greet_polite_substitutes_salutation
        (Fore : AnsiFore) (personal family : string) :
  exists before after : string,
    before = GREEN Fore
    /\ greet_kw Fore {| kw_personal := personal; kw_family := family;
                        kw_title := None; kw_polite := None |}
       = before ++ "Hey, " ++ after
    /\ greet_kw Fore {| kw_personal := personal; kw_family := family;
                        kw_title := None; kw_polite := Some true |}
       = before ++ "How do you do, " ++ after.
Proof.
  exists (GREEN Fore), (RED Fore ++ personal ++ " " ++ family ++ ".").
  unfold greet_kw; simpl.
  rewrite !greet_segments.
  repeat split.
Qed.

(** ** The statement-level model agrees with the function *)

Lemma py_greet_str (Fore : AnsiFore) (personal family title : string)
      (polite : bool) (w : Py.World) :
  Py.greet Fore (Py.VStr personal) (Py.VStr family) (Py.VStr title)
           (Py.VBool polite) w
  = (Py.Return (Py.VStr (greet Fore personal family title polite)), w).
Proof.
  unfold Py.greet, greet, Py.bind, Py.add, Py.ret; simpl.
  destruct polite, (str_bool title); reflexivity.
Qed.

Lemma py_greet_none (Fore : AnsiFore) (personal family : string)
      (polite : bool) (w : Py.World) :
  Py.greet Fore (Py.VStr personal) (Py.VStr family) Py.VNone
           (Py.VBool polite) w
  = (Py.Return (Py.VStr (greet Fore personal family "" polite)), w).
Proof.
  unfold Py.greet, greet, Py.bind, Py.add, Py.ret; simpl.
  destruct polite; reflexivity.
Qed.

Lemma py_greet_world (Fore : AnsiFore) (personal family title polite : Py.value)
      (w : Py.World) :
  Py.greet Fore personal family title polite w =
    (fst (Py.greet Fore personal family title polite
                   {| Py.stdout := []; Py.stderr := [] |}), w).
Proof.
  unfold Py.greet, Py.bind, Py.add, Py.ret, Py.raise.
  destruct (Py.truth polite), (Py.truth title), personal, family, title;
    reflexivity.
Qed.

(** C10.  On [str] arguments and a [bool] flag the body of [greet] runs to
    its [return]: no [+] raises, and the value returned is a [str]. *)
Theorem greet_total (Fore : AnsiFore) (personal family title : string)
        (polite : bool) (w : Py.World) :
  exists greeting : string,
    fst (Py.greet Fore (Py.VStr personal) (Py.VStr family) (Py.VStr title)
                  (Py.VBool polite) w)
    = Py.Return (Py.VStr greeting)
    /\ greeting = greet Fore personal family title polite.
Proof.
  eexists. rewrite py_greet_str. split; reflexivity.
Qed.

(** C8.  A call of [greet] leaves the output streams as it found them, and
    its outcome (the string returned, or the exception) is the same in
    whatever state of the world it is made: it depends on the arguments
    alone. *)
Theorem greet_pure (Fore : AnsiFore) (personal family title polite : Py.value)
        (w w' : Py.World) :
  snd (Py.greet Fore personal family title polite w) = w
  /\ fst (Py.greet Fore personal family title polite w)
     = fst (Py.greet Fore personal family title polite w').
Proof.
  rewrite (py_greet_world Fore personal family title polite w).
  rewrite (py_greet_world Fore personal family title polite w').
  split; reflexivity.
Qed.

(** ** Occurrences of a colour token *)

Lemma prefix_head_differs (c x : ascii) (needle hay : string) :
  c <> x -> prefix (String c needle) (String x hay) = false.
Proof.
  intros N. simpl. destruct (ascii_dec c x) as [E|_]; [contradiction|reflexivity].
Qed.







(** ** Where the title token sits *)

(** Splits [H : "c1c2..." = P ++ rest] by cases on how far the unknown
    [P] reaches into the literal on the left. *)
Ltac peel H P :=
  destruct P as [|? P]; simpl in H;
  [ try discriminate H
  | first [ discriminate H | injection H as ? H; subst ] ].

Ltac literal_in H t :=
  let v := eval vm_compute in t in change t with v in H.

Lemma no_flat_shape (tail : string) : ~ flat_shape colorama_Fore tail.
Proof.
  intros (markup & phrase & token & H).
  pose proof (H "X" "" "" false) as HX.
  pose proof (H "" "" "Dr" false) as HD.
  clear H.
  rewrite <- append_assoc in HX, HD.
  remember (markup ++ phrase false) as P eqn:EP. clear EP.
  simpl in HX, HD.
  literal_in HX (greet colorama_Fore "X" "" "" false).
  literal_in HD (greet colorama_Fore "" "" "Dr" false).
  repeat peel HX P.
  simpl in HD. discriminate HD.
Qed.

(** C2, as stated: the names do not follow the salutation (or the title
    token) directly, since the colour token of the name stands between
    them. *)
Lemma greet_not_flat : ~ flat_shape colorama_Fore "".
Proof.
  exact (no_flat_shape "").
Qed.

(** C2, amended.  A greeting is the leading colour token, the salutation
    chosen by [polite] alone, the title token when the title is not empty
    (its colour, the title, a space), the colour token of the name, then
    the personal name, a space and the family name, and a fixed closing
    string. *)
Theorem greet_shape (Fore : AnsiFore) :
  exists tail : string,
  forall (personal family title : string) (polite : bool),
    greet Fore personal family title polite =
      GREEN Fore
      ++ (if polite then "How do you do, " else "Hey, ")
      ++ (if str_bool title then BLUE Fore ++ title ++ " " else "")
      ++ RED Fore ++ personal ++ " " ++ family ++ tail.
Proof.
  exists ".". intros personal family title polite.
  exact (greet_segments Fore personal family title polite).
Qed.

(** C4, as stated: for James Hetherington there is no token that, put
    immediately before "James" in the plain greeting, gives the greeting
    with a title. *)
Lemma title_not_next_to_personal_name :
  ~ exists token before after : string,
      greet_kw colorama_Fore
        {| kw_personal := "James"; kw_family := "Hetherington";
           kw_title := None; kw_polite := None |}
      = before ++ "James" ++ after
      /\ greet_kw colorama_Fore
           {| kw_personal := "James"; kw_family := "Hetherington";
              kw_title := Some "Dr"; kw_polite := None |}
         = before ++ token ++ "James" ++ after.
Proof.
  intros (token & before & after & H0 & HD).
  literal_in H0 (greet_kw colorama_Fore
                   {| kw_personal := "James"; kw_family := "Hetherington";
                      kw_title := None; kw_polite := None |}).
  literal_in HD (greet_kw colorama_Fore
                   {| kw_personal := "James"; kw_family := "Hetherington";
                      kw_title := Some "Dr"; kw_polite := None |}).
  repeat peel H0 before.
  simpl in HD. discriminate HD.
Qed.

(** C4, amended.  With [title="Dr"] the greeting is the plain one with the
    title token (title colour, "Dr", a space) inserted right after the
    salutation, that is immediately before the colour token that precedes
    the personal name; the rest is unchanged. *)
Theorem greet_title_inserted_after_salutation
        (Fore : AnsiFore) (personal family : string) :
  exists before after : string,
    before = GREEN Fore ++ "Hey, "
    /\ greet_kw Fore {| kw_personal := personal; kw_family := family;
                        kw_title := None; kw_polite := None |}
       = before ++ RED Fore ++ personal ++ after
    /\ greet_kw Fore {| kw_personal := personal; kw_family := family;
                        kw_title := Some "Dr"; kw_polite := None |}
       = before ++ (BLUE Fore ++ "Dr" ++ " ") ++ RED Fore ++ personal ++ after.
Proof.
  exists (GREEN Fore ++ "Hey, "), (" " ++ family ++ ".").
  unfold greet_kw; simpl.
  rewrite !greet_segments.
  unfold salutation, title_token; simpl.
  rewrite !append_assoc. simpl.
  repeat split.
Qed.

(** ** The command line *)

Section CommandFacts.

Import Command.

Lemma plain_word_is_no_option (s : string) :
  starts_with_dash s = false ->
  is_help s = false /\ is_polite s = false /\ is_title s = false.
Proof.
  unfold is_help, is_polite, is_title.
  destruct s as [|c s]; [intros _; repeat split|].
  cbn [starts_with_dash String.eqb]. intros E. rewrite E.
  repeat split.
Qed.

Lemma scan_render (items : list item) :
  forallb word_ok items = true ->
  forall st, scan (render items) st = Scanned (fold_left absorb items st).
Proof.
  induction items as [|i items IH]; intros W st; [reflexivity|].
  cbn [forallb] in W. apply andb_prop in W. destruct W as [Wi W].
  destruct i as [s|short v|short]; cbn [render flat_map render_item app].
  - cbn [word_ok] in Wi. apply negb_true_iff in Wi.
    destruct (plain_word_is_no_option s Wi) as (Hh & Hp & Ht).
    cbn [scan fold_left absorb]. rewrite Hh, Hp, Ht, Wi.
    exact (IH W _).
  - cbn [word_ok] in Wi. apply negb_true_iff in Wi.
    destruct short; cbn [scan fold_left absorb];
      cbn [is_help is_polite is_title String.eqb Ascii.eqb Bool.eqb orb];
      rewrite Wi; exact (IH W _).
  - destruct short; cbn [scan fold_left absorb];
      cbn [is_help is_polite is_title String.eqb Ascii.eqb Bool.eqb orb];
      exact (IH W _).
Qed.

Lemma absorbed_title (items : list item) (st : scan_state) :
  seen_title (fold_left absorb items st) =
    match title_of items with
    | Some t => Some t
    | None => seen_title st
    end.
Proof.
  revert st. induction items as [|i items IH]; intros st; [reflexivity|].
  cbn [fold_left]. rewrite IH.
  destruct i as [s|short v|short]; cbn [title_of absorb].
  - unfold add_positional.
    destruct (List.length (seen_positionals st) <? 2)%nat; reflexivity.
  - destruct (title_of items); reflexivity.
  - reflexivity.
Qed.

Lemma absorbed_polite (items : list item) (st : scan_state) :
  seen_polite (fold_left absorb items st) = polite_of items || seen_polite st.
Proof.
  revert st. induction items as [|i items IH]; intros st; [reflexivity|].
  cbn [fold_left]. rewrite IH.
  destruct i as [s|short v|short]; cbn [polite_of absorb].
  - unfold add_positional.
    destruct (List.length (seen_positionals st) <? 2)%nat; reflexivity.
  - reflexivity.
  - cbn. now rewrite orb_true_r.
Qed.

(** As long as the two slots are not exceeded, the names fill them in
    order and nothing is left over. *)
Lemma absorbed_names (items : list item) (st : scan_state) :
  List.length (seen_positionals st) + List.length (names items) <= 2 ->
  seen_positionals (fold_left absorb items st)
    = (seen_positionals st ++ names items)%list
  /\ extras (fold_left absorb items st) = extras st.
Proof.
  revert st. induction items as [|i items IH]; intros st L.
  - cbn. now rewrite app_nil_r.
  - cbn [fold_left].
    destruct i as [s|short v|short]; cbn [names absorb] in *.
    + cbn [List.length] in L.
      assert (E : (List.length (seen_positionals st) <? 2)%nat = true)
        by (apply Nat.ltb_lt; lia).
      unfold add_positional. rewrite E.
      destruct (IH {| seen_title := seen_title st;
                      seen_polite := seen_polite st;
                      seen_positionals := (seen_positionals st ++ [s])%list;
                      extras := extras st |}) as [P X].
      { cbn. rewrite length_app. cbn. lia. }
      cbn in P, X. rewrite P, X, <- app_assoc. now split.
    + exact (IH (set_title v st) L).
    + exact (IH (set_polite st) L).
Qed.

Lemma parse_render (items : list item) :
  well_formed items = true ->
  parse_args (render items) = Parsed (arguments_of items).
Proof.
  unfold well_formed. intros W.
  apply andb_prop in W. destruct W as [W N]. apply Nat.eqb_eq in N.
  unfold parse_args. rewrite (scan_render items W).
  destruct (absorbed_names items start) as [P X]; [cbn; lia|].
  cbn in P, X. rewrite P, X, absorbed_title, absorbed_polite.
  unfold arguments_of.
  destruct (names items) as [|p [|f [|x names]]]; try discriminate N.
  cbn. destruct (title_of items); now rewrite orb_false_r.
Qed.

(** The scan of the items of a command line, whatever follows them. *)
Lemma scan_render_app (items : list item) (rest : list string) :
  forallb word_ok items = true ->
  forall st,
    scan (render items ++ rest) st = scan rest (fold_left absorb items st).
Proof.
  induction items as [|i items IH]; intros W st; [reflexivity|].
  cbn [forallb] in W. apply andb_prop in W. destruct W as [Wi W].
  destruct i as [s|short v|short];
    cbn [render flat_map render_item app];
    rewrite <- ?app_assoc; cbn [app].
  - cbn [word_ok] in Wi. apply negb_true_iff in Wi.
    destruct (plain_word_is_no_option s Wi) as (Hh & Hp & Ht).
    cbn [scan fold_left absorb]. rewrite Hh, Hp, Ht, Wi.
    exact (IH W _).
  - cbn [word_ok] in Wi. apply negb_true_iff in Wi.
    destruct short; cbn [scan fold_left absorb];
      cbn [is_help is_polite is_title String.eqb Ascii.eqb Bool.eqb orb];
      rewrite Wi; exact (IH W _).
  - destruct short; cbn [scan fold_left absorb];
      cbn [is_help is_polite is_title String.eqb Ascii.eqb Bool.eqb orb];
      exact (IH W _).
Qed.

(** The first two names fill the slots, the others are left over. *)
Lemma absorbed_slots (items : list item) :
  forall st : scan_state,
    List.length (seen_positionals st) <= 2 ->
    seen_positionals (fold_left absorb items st)
      = firstn 2 (seen_positionals st ++ names items)
    /\ extras (fold_left absorb items st)
       = (extras st ++ skipn 2 (seen_positionals st ++ names items))%list.
Proof.
  induction items as [|i items IH]; intros st L.
  - cbn. rewrite !app_nil_r.
    destruct (seen_positionals st) as [|p [|f [|x more]]];
      cbn in *; try lia; rewrite app_nil_r; now split.
  - cbn [fold_left].
    destruct i as [s|short v|short]; cbn [names absorb].
    + unfold add_positional.
      destruct (seen_positionals st) as [|p [|f [|x more]]] eqn:E;
        cbn in L; try lia; cbn [List.length Nat.ltb Nat.leb].
      * destruct (IH {| seen_title := seen_title st;
                        seen_polite := seen_polite st;
                        seen_positionals := ([] ++ [s])%list;
                        extras := extras st |}) as [P X]; [cbn; lia|].
        cbn in P, X |- *. now rewrite P, X.
      * destruct (IH {| seen_title := seen_title st;
                        seen_polite := seen_polite st;
                        seen_positionals := ([p] ++ [s])%list;
                        extras := extras st |}) as [P X]; [cbn; lia|].
        cbn in P, X |- *. now rewrite P, X.
      * destruct (IH (add_extra s st)) as [P X];
          [cbn; rewrite E; cbn; lia|].
        cbn in P, X. rewrite E in P, X. cbn in P, X |- *.
        rewrite P, X, <- app_assoc. now split.
    + exact (IH (set_title v st) L).
    + exact (IH (set_polite st) L).
Qed.

Lemma parse_wrong_count (items : list item) :
  forallb word_ok items = true ->
  List.length (names items) <> 2 ->
  parse_args (render items) =
    Error (if (List.length (names items) <? 2)%nat
           then "the following arguments are required"
           else "unrecognized arguments").
Proof.
  intros W N. unfold parse_args. rewrite (scan_render items W).
  destruct (absorbed_slots items start) as [P X]; [cbn; lia|].
  cbn in P, X. rewrite P, X.
  destruct (names items) as [|p [|f [|x more]]]; cbn in N |- *;
    try reflexivity.
  lia.
Qed.

Lemma parse_missing_title_value (items : list item) (short : bool) :
  forallb word_ok items = true ->
  parse_args (render items ++ [if short then "-t" else "--title"]) =
    Error "argument --title/-t: expected one argument".
Proof.
  intros W. unfold parse_args. rewrite (scan_render_app items _ W).
  destruct short; reflexivity.
Qed.

Variable Fore : AnsiFore.

(** What [process] prints when the parser accepts the command line. *)
Lemma process_parsed (argv : list string) (a : Namespace) (w : Py.World) :
  parse_args argv = Parsed a ->
  process Fore argv w =
    (Py.Return tt,
     {| Py.stdout := (Py.stdout w
                      ++ [greet Fore (personal a) (family a)
                                (title_or_default (title a)) (polite a)])%list;
        Py.stderr := Py.stderr w |}).
Proof.
  intros E. unfold process. rewrite E.
  unfold Py.bind.
  destruct (title a) as [t|]; cbn [title_or_default].
  - rewrite py_greet_str. reflexivity.
  - rewrite py_greet_none. reflexivity.
Qed.

Lemma process_help (argv : list string) (w : Py.World) :
  parse_args argv = Help ->
  process Fore argv w =
    (Py.Raise (Py.SystemExit 0),
     {| Py.stdout := (Py.stdout w ++ help)%list;
        Py.stderr := Py.stderr w |}).
Proof.
  intros E. unfold process. rewrite E.
  cbn. rewrite <- !app_assoc. reflexivity.
Qed.

Lemma process_error (argv : list string) (message : string) (w : Py.World) :
  parse_args argv = Error message ->
  process Fore argv w =
    (Py.Raise (Py.SystemExit 2),
     {| Py.stdout := Py.stdout w;
        Py.stderr := (Py.stderr w
                      ++ [usage; ("greet: error: " ++ message)%string])%list |}).
Proof.
  intros E. unfold process. rewrite E. reflexivity.
Qed.

End CommandFacts.

(** C6.  The command prints what [greet] returns for the parsed arguments:
    whenever the parser accepts the command line, one line goes to
    standard output and it is [greet] of the names, the title ([""] when
    there is none) and the politeness switch; and a command line that
    follows the usage line (two names, [--title]/[-t] with a value,
    [--polite]/[-p], in any order) is accepted with exactly the arguments
    it spells. *)
Theorem process_prints_greet (Fore : AnsiFore) (w : Py.World) :
  (forall (argv : list string) (a : Command.Namespace),
     Command.parse_args argv = Command.Parsed a ->
     Command.process Fore argv w =
       (Py.Return tt,
        {| Py.stdout := (Py.stdout w
                         ++ [greet Fore (Command.personal a) (Command.family a)
                                   (Command.title_or_default (Command.title a))
                                   (Command.polite a)])%list;
           Py.stderr := Py.stderr w |}))
  /\ (forall items : list Command.item,
        Command.well_formed items = true ->
        Command.process Fore (Command.render items) w =
          (Py.Return tt,
           {| Py.stdout := (Py.stdout w
                            ++ [greet Fore
                                  (nth 0 (Command.names items) "")
                                  (nth 1 (Command.names items) "")
                                  (Command.title_or_default
                                     (Command.title_of items))
                                  (Command.polite_of items)])%list;
              Py.stderr := Py.stderr w |})).
Proof.
  split.
  - intros argv a E. exact (process_parsed Fore argv a w E).
  - intros items W.
    exact (process_parsed Fore _ _ w (parse_render items W)).
Qed.

Lemma process_prints_greet_witness :
  Command.process colorama_Fore ["James"; "Hetherington"; "--title"; "Dr"]
                  {| Py.stdout := []; Py.stderr := [] |}
  = (Py.Return tt,
     {| Py.stdout := [greet colorama_Fore "James" "Hetherington" "Dr" false];
        Py.stderr := [] |}).
Proof.
  apply (proj2 (process_prints_greet colorama_Fore
                  {| Py.stdout := []; Py.stderr := [] |})
               [Command.Positional "James";
                Command.Positional "Hetherington";
                Command.Title false "Dr"]).
  reflexivity.
Defined.

(** C7, as stated: [greet James Hetherington --title] supplies both names
    and yet does not exit with status 0. *)
Lemma both_names_and_failure :
  ~ (forall (options : list string) (w : Py.World),
       Py.exit_status
         (fst (Command.process colorama_Fore
                 ("James" :: "Hetherington" :: options) w)) = 0).
Proof.
  intros H.
  specialize (H ["--title"] {| Py.stdout := []; Py.stderr := [] |}).
  discriminate H.
Qed.

(** C7, amended.  The command ends in one of three ways, each decided by
    the parser alone and with nothing added by [process]: it returns
    after printing the greeting (the parser accepted the command line);
    it exits with status 0 after printing the help text; or it exits with
    status 2 after writing the usage line and the parser's message to
    standard error and nothing to standard output.  A command line that
    follows the usage line ends the first way.  One whose names are not
    two, or that ends with [--title] or [-t] without its value, ends the
    third way. *)
Theorem process_exit (Fore : AnsiFore) (argv : list string) (w : Py.World) :
  ((exists a,
      Command.parse_args argv = Command.Parsed a
      /\ Command.process Fore argv w =
           (Py.Return tt,
            {| Py.stdout :=
                 (Py.stdout w
                  ++ [greet Fore (Command.personal a) (Command.family a)
                            (Command.title_or_default (Command.title a))
                            (Command.polite a)])%list;
               Py.stderr := Py.stderr w |}))
   \/ (Command.parse_args argv = Command.Help
       /\ Command.process Fore argv w =
            (Py.Raise (Py.SystemExit 0),
             {| Py.stdout := (Py.stdout w ++ Command.help)%list;
                Py.stderr := Py.stderr w |}))
   \/ (exists message,
         Command.parse_args argv = Command.Error message
         /\ Command.process Fore argv w =
              (Py.Raise (Py.SystemExit 2),
               {| Py.stdout := Py.stdout w;
                  Py.stderr :=
                    (Py.stderr w
                     ++ [Command.usage;
                         ("greet: error: " ++ message)%string])%list |})))
  /\ (forall items : list Command.item,
        Command.well_formed items = true ->
        argv = Command.render items ->
        Command.process Fore argv w =
          (Py.Return tt,
           {| Py.stdout :=
                (Py.stdout w
                 ++ [greet Fore
                       (nth 0 (Command.names items) "")
                       (nth 1 (Command.names items) "")
                       (Command.title_or_default (Command.title_of items))
                       (Command.polite_of items)])%list;
              Py.stderr := Py.stderr w |}))
  /\ (forall items : list Command.item,
        forallb Command.word_ok items = true ->
        List.length (Command.names items) <> 2 ->
        argv = Command.render items ->
        exists message,
          Command.process Fore argv w =
            (Py.Raise (Py.SystemExit 2),
             {| Py.stdout := Py.stdout w;
                Py.stderr :=
                  (Py.stderr w
                   ++ [Command.usage;
                       ("greet: error: " ++ message)%string])%list |}))
  /\ (forall (items : list Command.item) (short : bool),
        forallb Command.word_ok items = true ->
        argv = (Command.render items
                ++ [if short then "-t" else "--title"])%list ->
        Command.process Fore argv w =
          (Py.Raise (Py.SystemExit 2),
           {| Py.stdout := Py.stdout w;
              Py.stderr :=
                (Py.stderr w
                 ++ [Command.usage;
                     "greet: error: argument --title/-t: expected one argument"
                    ])%list |})).
Proof.
  split; [|split; [|split]].
  - destruct (Command.parse_args argv) as [a| |message] eqn:E.
    + left. exists a. split; [reflexivity|].
      exact (process_parsed Fore argv a w E).
    + right; left. split; [reflexivity|].
      exact (process_help Fore argv w E).
    + right; right. exists message. split; [reflexivity|].
      exact (process_error Fore argv message w E).
  - intros items W ->.
    exact (process_parsed Fore _ _ w (parse_render items W)).
  - intros items W N ->. eexists.
    exact (process_error Fore _ _ w (parse_wrong_count items W N)).
  - intros items short W ->.
    exact (process_error Fore _ _ w (parse_missing_title_value items short W)).
Qed.

Lemma process_exit_witness :
  Command.process colorama_Fore ["--polite"; "James"; "Hetherington"]
                  {| Py.stdout := []; Py.stderr := [] |}
  = (Py.Return tt,
     {| Py.stdout := [greet colorama_Fore "James" "Hetherington" "" true];
        Py.stderr := [] |})
  /\ (exists message,
        Command.process colorama_Fore ["James"]
                        {| Py.stdout := []; Py.stderr := [] |}
        = (Py.Raise (Py.SystemExit 2),
           {| Py.stdout := [];
              Py.stderr := [Command.usage;
                            ("greet: error: " ++ message)%string] |}))
  /\ Command.process colorama_Fore ["James"; "Hetherington"; "-t"]
                     {| Py.stdout := []; Py.stderr := [] |}
     = (Py.Raise (Py.SystemExit 2),
        {| Py.stdout := [];
           Py.stderr :=
             [Command.usage;
              "greet: error: argument --title/-t: expected one argument"] |}).
Proof.
  split; [|split].
  - apply (proj1 (proj2 (process_exit colorama_Fore
                           ["--polite"; "James"; "Hetherington"]
                           {| Py.stdout := []; Py.stderr := [] |}))
                 [Command.Polite false; Command.Positional "James";
                  Command.Positional "Hetherington"]);
      reflexivity.
  - apply (proj1 (proj2 (proj2 (process_exit colorama_Fore ["James"]
                                  {| Py.stdout := []; Py.stderr := [] |})))
                 [Command.Positional "James"]).
    + reflexivity.
    + cbn. lia.
    + reflexivity.
  - apply (proj2 (proj2 (proj2 (process_exit colorama_Fore
                                  ["James"; "Hetherington"; "-t"]
                                  {| Py.stdout := []; Py.stderr := [] |})))
                 [Command.Positional "James"; Command.Positional "Hetherington"]
                 true);
      reflexivity.
Defined.

(** ** Tidying up *)

Section TidyFacts.

Import Tidy.

(** One turn of the loop: the guard leaves [os.remove] three cases. *)
Lemma tidy_cons (f : string) (rest : list string) (fs : FileSystem) :
  tidy (f :: rest) fs =
    match fs f with
    | Some File => tidy rest (unlink f fs)
    | Some Directory => (Some (IsADirectoryError f), fs)
    | Some LockedFile => (Some (PermissionError f), fs)
    | None => tidy rest fs
    end.
Proof.
  cbn [tidy]. unfold path_exists, remove.
  destruct (fs f) as [[| |]|]; reflexivity.
Qed.

Lemma unlink_same (f : string) (fs : FileSystem) : unlink f fs f = None.
Proof.
  unfold unlink. now rewrite String.eqb_refl.
Qed.

Lemma unlink_other (f p : string) (fs : FileSystem) :
  p <> f -> unlink f fs p = fs p.
Proof.
  intros N. unfold unlink.
  now rewrite (proj2 (String.eqb_neq p f) N).
Qed.

Lemma unlink_removable (f d : string) (fs : FileSystem) :
  removable d (unlink f fs) = false -> removable d fs = false.
Proof.
  unfold removable, unlink.
  destruct (d =? f)%string; [discriminate | trivial].
Qed.

Lemma tidy_entry (files : list string) :
  forall (fs : FileSystem) (p : string),
    snd (tidy files fs) p = fs p
    \/ (In p files /\ fs p = Some File /\ snd (tidy files fs) p = None).
Proof.
  induction files as [|f rest IH]; intros fs p; [now left|].
  rewrite tidy_cons.
  destruct (fs f) as [[| |]|] eqn:E.
  - destruct (String.eqb_spec p f) as [->|N].
    + right. split; [now left|]. split; [exact E|].
      destruct (IH (unlink f fs) f) as [H|(_ & H & _)].
      * now rewrite H, unlink_same.
      * rewrite unlink_same in H. discriminate H.
    + destruct (IH (unlink f fs) p) as [H|(I & H & Z)];
        rewrite (unlink_other f p fs N) in H.
      * now left.
      * right. split; [now right|]. now split.
  - now left.
  - now left.
  - destruct (IH fs p) as [H|(I & H & Z)].
    + now left.
    + right. split; [now right|]. now split.
Qed.

Lemma tidy_error (files : list string) :
  forall (fs : FileSystem) (e : OSError),
    fst (tidy files fs) = Some e ->
    is_not_found e = false
    /\ In (filename e) files
    /\ removable (filename e) fs = false.
Proof.
  induction files as [|f rest IH]; intros fs e H; [discriminate H|].
  rewrite tidy_cons in H.
  destruct (fs f) as [[| |]|] eqn:E.
  - destruct (IH _ e H) as (K & I & D).
    split; [exact K|]. split; [now right|].
    exact (unlink_removable f _ fs D).
  - cbn in H. injection H as <-. cbn.
    split; [reflexivity|]. split; [now left|].
    unfold removable. now rewrite E.
  - cbn in H. injection H as <-. cbn.
    split; [reflexivity|]. split; [now left|].
    unfold removable. now rewrite E.
  - destruct (IH _ e H) as (K & I & D).
    split; [exact K|]. split; [now right | exact D].
Qed.

Lemma tidy_success_absent (files : list string) :
  forall fs : FileSystem,
    fst (tidy files fs) = None ->
    forall f, In f files -> snd (tidy files fs) f = None.
Proof.
  induction files as [|f rest IH]; intros fs H g I; [contradiction I|].
  rewrite tidy_cons in *.
  destruct (fs f) as [[| |]|] eqn:E.
  - destruct I as [<-|I]; [|exact (IH _ H g I)].
    destruct (tidy_entry rest (unlink f fs) f) as [Z|(_ & _ & Z)];
      [now rewrite Z, unlink_same | exact Z].
  - discriminate H.
  - discriminate H.
  - destruct I as [<-|I]; [|exact (IH _ H g I)].
    destruct (tidy_entry rest fs f) as [Z|(_ & _ & Z)];
      [now rewrite Z | exact Z].
Qed.

Lemma tidy_nothing_to_do (files : list string) (fs : FileSystem) :
  (forall f, In f files -> fs f = None) -> tidy files fs = (None, fs).
Proof.
  induction files as [|f rest IH]; intros A; [reflexivity|].
  rewrite tidy_cons, (A f (or_introl eq_refl)).
  apply IH. intros g I. apply A. now right.
Qed.

Lemma tidy_app (pre post : list string) :
  forall fs : FileSystem,
    tidy (pre ++ post) fs =
      match tidy pre fs with
      | (Some e, fs') => (Some e, fs')
      | (None, fs') => tidy post fs'
      end.
Proof.
  induction pre as [|f pre IH]; intros fs.
  - cbn. reflexivity.
  - change ((f :: pre) ++ post)%list with (f :: (pre ++ post)%list).
    rewrite !tidy_cons.
    destruct (fs f) as [[| |]|];
      [apply IH | reflexivity | reflexivity | apply IH].
Qed.

Lemma tidy_all_removable (files : list string) (fs : FileSystem) :
  (forall f, In f files -> removable f fs = true) ->
  fst (tidy files fs) = None.
Proof.
  intros R.
  destruct (fst (tidy files fs)) as [e|] eqn:E; [|reflexivity].
  destruct (tidy_error files fs e E) as (_ & I & D).
  rewrite (R _ I) in D. discriminate D.
Qed.

End TidyFacts.

(** X1.  When every listed path is absent or a file that the process may
    delete, the loop ends without an exception, none of the listed paths
    exists afterwards, and every other path is as it was. *)
Theorem tidy_removes_listed_files (files : list string) (fs : Tidy.FileSystem) :
  (forall f, In f files -> Tidy.removable f fs = true) ->
  fst (Tidy.tidy files fs) = None
  /\ (forall f, In f files -> Tidy.path_exists f (snd (Tidy.tidy files fs)) = false)
  /\ (forall p, ~ In p files -> snd (Tidy.tidy files fs) p = fs p).
Proof.
  intros R.
  pose proof (tidy_all_removable files fs R) as S.
  split; [exact S|]. split.
  - intros f I. unfold Tidy.path_exists.
    now rewrite (tidy_success_absent files fs S f I).
  - intros p N.
    destruct (tidy_entry files fs p) as [H|(I & _)]; [exact H | contradiction].
Qed.

Lemma tidy_removes_listed_files_witness :
  fst (Tidy.tidy Tidy.files Tidy.after_previous_notebook) = None
  /\ Tidy.path_exists "greeter.py"
       (snd (Tidy.tidy Tidy.files Tidy.after_previous_notebook)) = false
  /\ snd (Tidy.tidy Tidy.files Tidy.after_previous_notebook) "Greetings"
     = Some Tidy.Directory.
Proof.
  assert (R : forall f, In f Tidy.files ->
                        Tidy.removable f Tidy.after_previous_notebook = true).
  { intros f [<-|[<-|[]]]; reflexivity. }
  destruct (tidy_removes_listed_files Tidy.files Tidy.after_previous_notebook R)
    as (S & A & O).
  split; [exact S|]. split.
  - apply A. now left.
  - rewrite O; [reflexivity|].
    intros [E|[E|[]]]; discriminate E.
Defined.

(** X2.  Whatever happens, the loop changes an entry of the directory in
    one way only: a listed path that was a file is gone.  It creates
    nothing, deletes no directory and touches no path outside its list,
    also when it ends with an exception. *)
Theorem tidy_changes_only_listed_files
        (files : list string) (fs : Tidy.FileSystem) (p : string) :
  snd (Tidy.tidy files fs) p = fs p
  \/ (In p files /\ fs p = Some Tidy.File /\ snd (Tidy.tidy files fs) p = None).
Proof.
  exact (tidy_entry files fs p).
Qed.

(** X3.  Running the cell again after a run that succeeded does nothing:
    no exception, and the directory is returned as it is. *)
Theorem tidy_twice (files : list string) (fs : Tidy.FileSystem) :
  fst (Tidy.tidy files fs) = None ->
  Tidy.tidy files (snd (Tidy.tidy files fs)) = (None, snd (Tidy.tidy files fs)).
Proof.
  intros S. apply tidy_nothing_to_do.
  exact (tidy_success_absent files fs S).
Qed.

Lemma tidy_twice_witness :
  Tidy.tidy Tidy.files (snd (Tidy.tidy Tidy.files Tidy.after_previous_notebook))
  = (None, snd (Tidy.tidy Tidy.files Tidy.after_previous_notebook)).
Proof.
  apply (tidy_twice Tidy.files Tidy.after_previous_notebook).
  reflexivity.
Defined.

(** X4.  The guard keeps [os.remove] from a path that is not there: the
    loop never ends with [FileNotFoundError].  An exception it ends with
    names a listed path that [os.remove] cannot delete (a directory, or a
    file the process may not delete), and it does end with one as soon as
    such a path is listed. *)
Theorem tidy_raises_for_undeletable_only
        (files : list string) (fs : Tidy.FileSystem) :
  (forall e, fst (Tidy.tidy files fs) = Some e ->
             Tidy.is_not_found e = false
             /\ In (Tidy.filename e) files
             /\ Tidy.removable (Tidy.filename e) fs = false)
  /\ ((exists d, In d files /\ Tidy.removable d fs = false) ->
      fst (Tidy.tidy files fs) <> None).
Proof.
  split; [exact (tidy_error files fs)|].
  intros (d & I & D) S.
  pose proof (tidy_success_absent files fs S d I) as A.
  unfold Tidy.removable in D.
  destruct (tidy_entry files fs d) as [H|(_ & H & _)].
  - rewrite A in H. rewrite <- H in D. discriminate D.
  - rewrite H in D. discriminate D.
Qed.

Lemma tidy_raises_for_undeletable_only_witness :
  fst (Tidy.tidy Tidy.files Tidy.with_locked_file) <> None
  /\ forall e, fst (Tidy.tidy Tidy.files Tidy.with_directory_in_the_way)
               = Some e ->
               Tidy.filename e = "command.py".
Proof.
  split.
  - apply (proj2 (tidy_raises_for_undeletable_only
                    Tidy.files Tidy.with_locked_file)).
    exists "greeter.py". split; [now left | reflexivity].
  - intros e E.
    destruct (proj1 (tidy_raises_for_undeletable_only
                       Tidy.files Tidy.with_directory_in_the_way) e E)
      as (_ & [<-|[<-|[]]] & R).
    + discriminate R.
    + reflexivity.
Defined.

(** X5.  The loop stops at the first listed path that [os.remove] cannot
    delete: the exception names it, the paths listed before it are gone,
    and every other path, the ones listed after it included, is as it
    was. *)
Theorem tidy_stops_at_undeletable
        (pre post : list string) (d : string) (fs : Tidy.FileSystem) :
  Tidy.removable d fs = false ->
  (forall f, In f pre -> Tidy.removable f fs = true) ->
  (exists e, fst (Tidy.tidy (pre ++ d :: post) fs) = Some e
             /\ Tidy.filename e = d /\ Tidy.is_not_found e = false)
  /\ (forall f, In f pre ->
        snd (Tidy.tidy (pre ++ d :: post) fs) f = None)
  /\ (forall p, ~ In p pre ->
        snd (Tidy.tidy (pre ++ d :: post) fs) p = fs p).
Proof.
  intros D R.
  pose proof (tidy_all_removable pre fs R) as S.
  assert (K : snd (Tidy.tidy pre fs) d = fs d).
  { destruct (tidy_entry pre fs d) as [H|(_ & H & _)]; [exact H|].
    unfold Tidy.removable in D. rewrite H in D. discriminate D. }
  pose proof (tidy_success_absent pre fs S) as A.
  pose proof (fun p => tidy_entry pre fs p) as F.
  rewrite tidy_app.
  destruct (Tidy.tidy pre fs) as [[e|] fs'] eqn:T; [discriminate S|].
  cbn [snd] in K, A, F. rewrite tidy_cons, K.
  unfold Tidy.removable in D.
  assert (G : forall p, ~ In p pre -> fs' p = fs p).
  { intros p N. destruct (F p) as [H|(I & _)]; [exact H | contradiction]. }
  destruct (fs d) as [[| |]|]; try discriminate D; cbn [fst snd].
  - split; [exists (Tidy.IsADirectoryError d); repeat split|].
    split; [exact A | exact G].
  - split; [exists (Tidy.PermissionError d); repeat split|].
    split; [exact A | exact G].
Qed.

Lemma tidy_stops_at_undeletable_witness :
  (exists e, fst (Tidy.tidy Tidy.files Tidy.with_directory_in_the_way) = Some e
             /\ Tidy.filename e = "command.py"
             /\ Tidy.is_not_found e = false)
  /\ snd (Tidy.tidy Tidy.files Tidy.with_directory_in_the_way) "greeter.py"
     = None.
Proof.
  destruct (tidy_stops_at_undeletable ["greeter.py"] [] "command.py"
              Tidy.with_directory_in_the_way eq_refl) as (E & A & _).
  - intros f [<-|[]]. reflexivity.
  - split; [exact E|]. apply A. now left.
Defined.

(** ** More on the greeter *)

Lemma append_inv_head (a b c : string) : a ++ b = a ++ c -> b = c.
Proof.
  induction a as [|x a IH]; intros H; [exact H|].
  injection H as H. exact (IH H).
Qed.

Lemma append_inv_last (a b : string) (c : ascii) :
  a ++ String c "" = b ++ String c "" -> a = b.
Proof.
  revert b. induction a as [|x a IH]; intros [|y b] H.
  - reflexivity.
  - injection H as _ H. destruct b; discriminate H.
  - injection H as _ H. destruct a; discriminate H.
  - injection H as -> H. now rewrite (IH b H).
Qed.

Lemma length_append (a b : string) :
  String.length (a ++ b) = String.length a + String.length b.
Proof.
  induction a as [|x a IH]; simpl; [reflexivity | now rewrite IH].
Qed.

(** X6.  Which calls raise, for arguments that are [str], [bool], [int]
    or [None] themselves: [greet] returns a [str] when both names are
    [str] and the title is a [str] or counts as false, and raises
    [TypeError] in every other case, whichever of these [polite] is. *)
Theorem greet_raises_iff (Fore : AnsiFore)
        (personal family title polite : Py.value) (w : Py.World) :
  (is_str personal && is_str family && (negb (Py.truth title) || is_str title)
     = true ->
   exists s, fst (Py.greet Fore personal family title polite w)
             = Py.Return (Py.VStr s))
  /\ (is_str personal && is_str family
        && (negb (Py.truth title) || is_str title) = false ->
      fst (Py.greet Fore personal family title polite w)
        = Py.Raise Py.TypeError).
Proof.
  unfold Py.greet, Py.bind, Py.add, Py.ret, Py.raise.
  destruct (Py.truth polite);
    destruct personal as [p|pb|pn|], family as [f|fb|fn|],
             title as [t|[|]|n|];
    cbn; try destruct (str_bool t); try destruct (n =? 0)%Z; cbn;
    split; intros H; try discriminate H; try reflexivity; eexists; reflexivity.
Qed.

Lemma greet_raises_iff_witness :
  (exists s, fst (Py.greet colorama_Fore (Py.VStr "James")
                           (Py.VStr "Hetherington") Py.VNone (Py.VInt 1)
                           {| Py.stdout := []; Py.stderr := [] |})
             = Py.Return (Py.VStr s))
  /\ fst (Py.greet colorama_Fore (Py.VStr "James") (Py.VStr "Hetherington")
                   (Py.VInt 7) (Py.VBool false)
                   {| Py.stdout := []; Py.stderr := [] |})
     = Py.Raise Py.TypeError.
Proof.
  split.
  - apply (proj1 (greet_raises_iff colorama_Fore (Py.VStr "James")
                    (Py.VStr "Hetherington") Py.VNone (Py.VInt 1)
                    {| Py.stdout := []; Py.stderr := [] |})).
    reflexivity.
  - apply (proj2 (greet_raises_iff colorama_Fore (Py.VStr "James")
                    (Py.VStr "Hetherington") (Py.VInt 7) (Py.VBool false)
                    {| Py.stdout := []; Py.stderr := [] |})).
    reflexivity.
Defined.

(** X7.  A title that counts as false ([None], [0], [False], the empty
    string) is no title, and [polite] counts by its truth value only: on
    [str] names such a call returns the greeting without a title, formal
    exactly when [polite] counts as true. *)
Theorem greet_false_title (Fore : AnsiFore) (personal family : string)
        (title polite : Py.value) (w : Py.World) :
  Py.truth title = false ->
  Py.greet Fore (Py.VStr personal) (Py.VStr family) title polite w
  = (Py.Return (Py.VStr (greet Fore personal family "" (Py.truth polite))), w).
Proof.
  intros T. unfold Py.greet, greet. rewrite T.
  destruct (Py.truth polite); reflexivity.
Qed.

Lemma greet_false_title_witness :
  Py.greet colorama_Fore (Py.VStr "James") (Py.VStr "Hetherington")
           Py.VNone (Py.VStr "yes") {| Py.stdout := []; Py.stderr := [] |}
  = (Py.Return (Py.VStr (greet colorama_Fore "James" "Hetherington" "" true)),
     {| Py.stdout := []; Py.stderr := [] |}).
Proof.
  apply (greet_false_title colorama_Fore "James" "Hetherington"
           Py.VNone (Py.VStr "yes")).
  reflexivity.
Defined.

(** X8.  The greeting tells whether it is the formal one: two calls that
    return the same string were made with the same [polite], whatever the
    names and titles. *)
Theorem greet_determines_polite (Fore : AnsiFore)
        (personal family title personal' family' title' : string)
        (polite polite' : bool) :
  greet Fore personal family title polite
    = greet Fore personal' family' title' polite' ->
  polite = polite'.
Proof.
  rewrite !greet_segments. intros H.
  apply append_inv_head in H.
  destruct polite, polite'; try reflexivity; cbn in H; discriminate H.
Qed.

Lemma greet_determines_polite_witness :
  greet colorama_Fore "James" "T. Kirk" "" true
    = greet colorama_Fore "James T." "Kirk" "" true
  /\ true = true.
Proof.
  split; [reflexivity|].
  apply (greet_determines_polite colorama_Fore
           "James" "T. Kirk" "" "James T." "Kirk" "" true true).
  reflexivity.
Defined.

(** X9.  The names enter the greeting only as "personal family": with the
    same title and flag, two calls return the same string exactly when
    their names, joined by a space, are the same.  So the greeting does
    not tell where the personal name ends. *)
Theorem greet_same_iff_joined_names (Fore : AnsiFore)
        (personal family personal' family' title : string) (polite : bool) :
  greet Fore personal family title polite
    = greet Fore personal' family' title polite
  <-> personal ++ " " ++ family = personal' ++ " " ++ family'.
Proof.
  rewrite !greet_segments. split.
  - intros H.
    do 4 apply append_inv_head in H.
    apply (append_inv_last _ _ "."%char).
    rewrite !append_assoc. cbn. exact H.
  - intros H.
    do 4 f_equal.
    assert (E : forall p f, p ++ " " ++ f ++ "." = (p ++ " " ++ f) ++ ".").
    { intros p f. rewrite !append_assoc. reflexivity. }
    rewrite !E, H. reflexivity.
Qed.

(** X10.  Length of a greeting: the two colour tokens, the salutation (5 or
    15 characters), the names with the space between them and the full
    stop, and for a title its colour token, the title and a space. *)
Theorem greet_length (Fore : AnsiFore) (personal family title : string)
        (polite : bool) :
  String.length (greet Fore personal family title polite) =
    String.length (GREEN Fore) + (if polite then 15 else 5)
    + (if str_bool title
       then String.length (BLUE Fore) + String.length title + 1 else 0)
    + String.length (RED Fore)
    + String.length personal + 1 + String.length family + 1.
Proof.
  rewrite greet_segments. unfold salutation, title_token.
  destruct polite, (str_bool title);
    repeat rewrite length_append; cbn [String.length]; lia.
Qed.

(** X11.  When the colour of the title cannot be taken for the colour of
    the name (neither token starts a string the other starts), a greeting
    with a title is never the greeting of a call without one. *)
Theorem greet_title_shows (Fore : AnsiFore)
        (personal family title personal' family' : string)
        (polite polite' : bool) :
  (forall x y, BLUE Fore ++ x <> RED Fore ++ y) ->
  str_bool title = true ->
  greet Fore personal family title polite
    <> greet Fore personal' family' "" polite'.
Proof.
  intros Sep T H.
  assert (P : polite = polite').
  { rewrite !greet_segments in H. apply append_inv_head in H.
    destruct polite, polite'; try reflexivity; cbn in H; discriminate H. }
  subst polite'.
  rewrite !greet_segments in H.
  do 2 apply append_inv_head in H.
  unfold title_token in H. rewrite T in H. cbn [str_bool] in H.
  rewrite append_assoc in H. cbn in H.
  exact (Sep _ _ H).
Qed.

Lemma greet_title_shows_witness :
  greet colorama_Fore "James" "Hetherington" "Dr" false
    <> greet colorama_Fore "Dr James" "Hetherington" "" false.
Proof.
  apply (greet_title_shows colorama_Fore).
  - intros x y H. cbn in H. discriminate H.
  - reflexivity.
Defined.
